(** * Program memory of the 8-bit CPU simulator (program_memory.c)

    The development embeds the instruction encoder [assemble], the program
    memory [data] with its one-time population [program_memory_write], the
    read access [program_memory_read] and the subroutine-name lookup
    [program_memory_subroutine_name], and states the properties of the
    specification over them.

    Integers are modelled as [Z] with the C conversions written out, the
    program memory as a list of words indexed by address, and an access
    outside the array as [None]. *)

From stdpp Require Import base list strings.
From Stdlib Require Import ZArith Lia.

Local Open Scope Z_scope.

(** ** The constants of the headers

    program_memory.c includes program_memory.h, which (with the CPU
    definitions behind it) supplies the capacity macro, the reset vector,
    the operation codes, the register and port numbers and the macros
    [low] and [high].  The headers are not part of the sources at hand, so
    the embedding takes them as a parameter: every definition below that
    uses one of these names is stated over an arbitrary [cpu_header]. *)

Class cpu_header : Type := {
  PROGRAM_MEMORY_ADDRESS_WIDTH : Z;
  RESET_vect : Z;
  NOP : Z; JMP : Z; CALL : Z; RET : Z;
  LD : Z; ST : Z; OUT : Z; LDI : Z;
  R16 : Z; R17 : Z; R18 : Z; R19 : Z; R24 : Z;
  XL : Z; XH : Z; XREG : Z;
  DDRB : Z; PORTB : Z;
  PORTB0 : Z; PORTB1 : Z; PORTB2 : Z;
  low : Z -> Z;
  high : Z -> Z
}.

(** ** Macro definitions of program_memory.c *)

Definition main : Z := 8.
Definition main_loop : Z := 9.
Definition led_blink : Z := 13.
Definition setup : Z := 18.
Definition init_ports : Z := 21.
Definition init_registers : Z := 24.
(** [end] is a keyword of Rocq; the macro [end] of the source is [end_]. *)
Definition end_ : Z := 30.

Definition LED1 `{cpu_header} : Z := PORTB0.
Definition LED2 `{cpu_header} : Z := PORTB1.
Definition LED3 `{cpu_header} : Z := PORTB2.

(** ** Fixed-width integers *)

Definition is_uint8 (z : Z) : Prop := 0 <= z < 256.

(** Conversion of an [int] value to [uint8_t] and to [uint32_t]. *)
Definition to_uint8 (z : Z) : Z := z mod 2 ^ 8.
Definition to_uint32 (z : Z) : Z := z mod 2 ^ 32.

(** ** The instruction encoder *)

(** [assemble]: the three [uint8_t] arguments are promoted to [int] (of
    32 bits, where a byte shifted left by 16 does not overflow), shifted
    and or-ed, and the result is stored in a [uint32_t]. *)
Definition assemble (op_code op1 op2 : Z) : Z :=
  let instruction :=
    to_uint32 (Z.lor (Z.lor (Z.shiftl op_code 16) (Z.shiftl op1 8)) op2) in
  instruction.

(** The fields of an instruction word, by bit position. *)
Definition word_bits (w lo len : Z) : Z := Z.land (Z.shiftr w lo) (Z.ones len).
Definition opcode_field (w : Z) : Z := word_bits w 16 8.
Definition operand1_field (w : Z) : Z := word_bits w 8 8.
Definition operand2_field (w : Z) : Z := word_bits w 0 8.
Definition unused_bits (w : Z) : Z := Z.shiftr w 24.

(** ** The program memory *)

(** The state of the translation unit: the static array [data] and the
    function-local static flag [program_memory_initialized]. *)
Record program_memory : Type := {
  data : list Z;
  program_memory_initialized : bool
}.

(** An array access [d[i]] and an assignment [d[i] = v]; an index outside
    the array is undefined in C and is [None] here. *)
Definition array_get (d : list Z) (i : Z) : option Z :=
  if bool_decide (0 <= i) then d !! Z.to_nat i else None.

Definition array_set (d : list Z) (i v : Z) : option (list Z) :=
  if bool_decide (0 <= i < Z.of_nat (length d))
  then Some (<[Z.to_nat i := v]> d)
  else None.

(** A call [assemble(op_code, op1, op2)] from C: each argument is
    converted to the [uint8_t] parameter it is passed to. *)
Definition instruction (op_code op1 op2 : Z) : Z :=
  assemble (to_uint8 op_code) (to_uint8 op1) (to_uint8 op2).

(** The assignments of [program_memory_write], in the order of the source:
    each pair is [data[address] = word]. *)
Definition machine_code `{cpu_header} : list (Z * Z) :=
  [ (* RESET_vect *)
    (0, instruction JMP main 0x00);
    (1, instruction NOP 0x00 0x00);
    (2, instruction NOP 0x00 0x00);
    (3, instruction NOP 0x00 0x00);
    (4, instruction NOP 0x00 0x00);
    (5, instruction NOP 0x00 0x00);
    (6, instruction NOP 0x00 0x00);
    (7, instruction NOP 0x00 0x00);
    (* main *)
    (8, instruction CALL setup 0x00);
    (* main_loop *)
    (9, instruction CALL led_blink 0x00);
    (10, instruction ST XREG R18);
    (11, instruction LD R24 XREG);
    (12, instruction JMP main_loop 0x00);
    (* led_blink *)
    (13, instruction OUT PORTB R16);
    (14, instruction OUT PORTB R17);
    (15, instruction OUT PORTB R18);
    (16, instruction OUT PORTB R19);
    (17, instruction RET 0x00 0x00);
    (* setup *)
    (18, instruction CALL init_ports 0x00);
    (19, instruction CALL init_registers 0x00);
    (20, instruction RET 0x00 0x00);
    (* init_ports *)
    (21, instruction LDI R16
           (Z.lor (Z.lor (Z.shiftl 1 LED1) (Z.shiftl 1 LED2)) (Z.shiftl 1 LED3)));
    (22, instruction OUT DDRB R16);
    (23, instruction RET 0x00 0x00);
    (* init_registers *)
    (24, instruction LDI R16 (Z.shiftl 1 LED1));
    (25, instruction LDI R17 (Z.shiftl 1 LED2));
    (26, instruction LDI R18 (Z.shiftl 1 LED3));
    (27, instruction LDI XL (low 1000));
    (28, instruction LDI XH (high 1000));
    (29, instruction RET 0x00 0x00) ].

(** The addresses [program_memory_write] assigns to. *)
Definition written_slots `{cpu_header} : list Z := machine_code.*1.

(** Running a sequence of assignments on the array. *)
Fixpoint write_words (d : list Z) (code : list (Z * Z)) : option (list Z) :=
  match code with
  | [] => Some d
  | (address, word) :: code' =>
      d' ← array_set d address word; write_words d' code'
  end.

(** The state when the program starts: a static array is zero-filled and
    the flag is [false]. *)
Definition power_on `{cpu_header} : program_memory :=
  {| data := replicate (Z.to_nat PROGRAM_MEMORY_ADDRESS_WIDTH) 0;
     program_memory_initialized := false |}.

Definition program_memory_write `{cpu_header} (s : program_memory)
  : option program_memory :=
  if program_memory_initialized s then Some s
  else
    d' ← write_words (data s) machine_code;
    Some {| data := d'; program_memory_initialized := true |}.

Definition program_memory_read `{cpu_header} (s : program_memory) (address : Z)
  : option Z :=
  if address <? PROGRAM_MEMORY_ADDRESS_WIDTH
  then array_get (data s) address
  else Some 0x00.

Definition program_memory_subroutine_name `{cpu_header} (address : Z) : string :=
  if (address >=? RESET_vect) && (address <? main) then "RESET_vect"
  else if (address >=? main) && (address <? main_loop) then "main"
  else if (address >=? main_loop) && (address <? led_blink) then "main_loop"
  else if (address >=? led_blink) && (address <? setup) then "led_blink"
  else if (address >=? setup) && (address <? init_ports) then "setup"
  else if (address >=? init_ports) && (address <? init_registers) then "init_ports"
  else if (address >=? init_registers) && (address <? end_) then "init_registers"
  else "Unknown".

(** ** The named ranges as a table *)

(** The conditions of [program_memory_subroutine_name], read off as
    half-open ranges with their names, in the order they are tested. *)
Definition subroutine_ranges `{cpu_header} : list (Z * Z * string) :=
  [ (RESET_vect, main, "RESET_vect");
    (main, main_loop, "main");
    (main_loop, led_blink, "main_loop");
    (led_blink, setup, "led_blink");
    (setup, init_ports, "setup");
    (init_ports, init_registers, "init_ports");
    (init_registers, end_, "init_registers") ]%string.

Fixpoint first_match (ranges : list (Z * Z * string)) (address : Z) : string :=
  match ranges with
  | [] => "Unknown"
  | (lo, hi, name) :: ranges' =>
      if (address >=? lo) && (address <? hi) then name
      else first_match ranges' address
  end.

(** [tiles lo hi ranges]: the ranges are non-empty, start at [lo], each
    ends where the next starts, and the last ends at [hi]. *)
Fixpoint tiles (lo hi : Z) (ranges : list (Z * Z * string)) : Prop :=
  match ranges with
  | [] => lo = hi
  | (start, stop, _) :: ranges' =>
      start = lo /\ start < stop /\ tiles stop hi ranges'
  end.

(** ** The interface as a state machine *)

Inductive call : Type :=
| Populate
| Read (address : Z)
| SubroutineName (address : Z).

Inductive reply : Type :=
| Returned
| Word (w : Z)
| Name (name : string).

Definition run_call `{cpu_header} (s : program_memory) (c : call)
  : option (program_memory * reply) :=
  match c with
  | Populate => s' ← program_memory_write s; Some (s', Returned)
  | Read address => w ← program_memory_read s address; Some (s, Word w)
  | SubroutineName address =>
      Some (s, Name (program_memory_subroutine_name address))
  end.

(** The state after a history of calls, or [None] if one of them faults. *)
Fixpoint run_calls `{cpu_header} (s : program_memory) (cs : list call)
  : option program_memory :=
  match cs with
  | [] => Some s
  | c :: cs' => r ← run_call s c; run_calls r.1 cs'
  end.

(** The array has the size it is declared with. *)
Definition well_sized `{cpu_header} (s : program_memory) : Prop :=
  length (data s) = Z.to_nat PROGRAM_MEMORY_ADDRESS_WIDTH.

(** The ranges of a table that contain an address. *)
Definition ranges_containing (ranges : list (Z * Z * string)) (address : Z)
  : list (Z * Z * string) :=
  filter (fun r => r.1.1 <= address < r.1.2) ranges.

(** "Populate writes every slot": each address below the capacity is one
    that [program_memory_write] assigns to. *)
Definition writes_every_slot `{cpu_header} : Prop :=
  forall a, 0 <= a < PROGRAM_MEMORY_ADDRESS_WIDTH -> a ∈ written_slots.

(** ** A header to evaluate with *)

(** Modelled from the spec: program_memory.h and the CPU definitions it
    includes are missing.  The capacity of 256 slots is the one of the
    specification (and of the comment on [data]); [RESET_vect] is the first
    address, 0, where the source places the reset vector; [NOP] is 0x00,
    the word the comment on [program_memory_read] calls "no operation".
    The remaining operation codes, register and port numbers are opaque
    byte constants to the specification; the values here are one
    assignment of distinct bytes, and [low] and [high] take the low and the
    high byte of a 16-bit value. *)
Definition sample_header : cpu_header :=
  {| PROGRAM_MEMORY_ADDRESS_WIDTH := 256;
     RESET_vect := 0x00;
     NOP := 0x00; JMP := 0x16; CALL := 0x17; RET := 0x18;
     LD := 0x19; ST := 0x1A; OUT := 0x03; LDI := 0x01;
     R16 := 16; R17 := 17; R18 := 18; R19 := 19; R24 := 24;
     XL := 26; XH := 27; XREG := 26;
     DDRB := 0x00; PORTB := 0x01;
     PORTB0 := 0; PORTB1 := 1; PORTB2 := 2;
     low := fun x => Z.land x 0xFF;
     high := fun x => Z.shiftr x 8 |}.

(** The same header with the capacity halved while the address stays a
    [uint8_t]: a sizing where the capacity and the address width differ. *)
Definition small_header : cpu_header :=
  {| PROGRAM_MEMORY_ADDRESS_WIDTH := 128;
     RESET_vect := 0x00;
     NOP := 0x00; JMP := 0x16; CALL := 0x17; RET := 0x18;
     LD := 0x19; ST := 0x1A; OUT := 0x03; LDI := 0x01;
     R16 := 16; R17 := 17; R18 := 18; R19 := 19; R24 := 24;
     XL := 26; XH := 27; XREG := 26;
     DDRB := 0x00; PORTB := 0x01;
     PORTB0 := 0; PORTB1 := 1; PORTB2 := 2;
     low := fun x => Z.land x 0xFF;
     high := fun x => Z.shiftr x 8 |}.

(** ** Words, calls and sizings *)

(** A word that uses the low 24 bits only. *)
Definition word24 (w : Z) : Prop := 0 <= w < 2 ^ 24.

(** A call as the prototypes allow it: the address argument of
    [program_memory_read] and of [program_memory_subroutine_name] is a
    [uint8_t]. *)
Definition uint8_call (c : call) : Prop :=
  match c with
  | Populate => True
  | Read address => is_uint8 address
  | SubroutineName address => is_uint8 address
  end.

Definition is_populate (c : call) : bool :=
  match c with
  | Populate => true
  | _ => false
  end.

(** A header with the capacity macro set to another value. *)
Definition with_capacity (h : cpu_header) (capacity : Z) : cpu_header :=
  {| PROGRAM_MEMORY_ADDRESS_WIDTH := capacity;
     RESET_vect := @RESET_vect h;
     NOP := @NOP h; JMP := @JMP h; CALL := @CALL h; RET := @RET h;
     LD := @LD h; ST := @ST h; OUT := @OUT h; LDI := @LDI h;
     R16 := @R16 h; R17 := @R17 h; R18 := @R18 h; R19 := @R19 h;
     R24 := @R24 h;
     XL := @XL h; XH := @XH h; XREG := @XREG h;
     DDRB := @DDRB h; PORTB := @PORTB h;
     PORTB0 := @PORTB0 h; PORTB1 := @PORTB1 h; PORTB2 := @PORTB2 h;
     low := @low h;
     high := @high h |}.

(** The store the sample header gives after populate(), written out. *)
Definition sample_populated : program_memory :=
  {| data := [0x160800; 0; 0; 0; 0; 0; 0; 0; 0x171200; 0x170D00;
              0x1A1A12; 0x19181A; 0x160900; 0x030110; 0x030111;
              0x030112; 0x030113; 0x180000; 0x171500; 0x171800;
              0x180000; 0x011007; 0x030010; 0x180000; 0x011001;
              0x011102; 0x011204; 0x011AE8; 0x011B03; 0x180000]
             ++ replicate 226 0;
     program_memory_initialized := true |}.

(** ** What a function body reads

    Whether a function consults the store cannot be seen from a Rocq
    function of the address alone.  The bodies of
    [program_memory_subroutine_name] and [program_memory_read] are
    therefore also given as syntax, in a language of C expressions over
    the parameter [address], constants and the file-scope array [data]
    (the flag is local to [program_memory_write] and out of scope in the
    other functions), and run against a store. *)

Inductive expr : Type :=
| Address
| Const (z : Z)
| DataAt (index : expr)
| Ge (e1 e2 : expr)
| Lt (e1 e2 : expr)
| And (e1 e2 : expr).

Inductive stmt : Type :=
| ReturnName (name : string)
| ReturnWord (e : expr)
| IfElse (condition : expr) (then_ else_ : stmt).

(** A comparison gives 1 or 0; [&&] evaluates its right operand only when
    the left one is not 0; [data[i]] outside the array is [None]. *)
Fixpoint eval_expr (s : program_memory) (address : Z) (e : expr) : option Z :=
  match e with
  | Address => Some address
  | Const z => Some z
  | DataAt index =>
      i ← eval_expr s address index; array_get (data s) i
  | Ge e1 e2 =>
      x ← eval_expr s address e1; y ← eval_expr s address e2;
      Some (if x >=? y then 1 else 0)
  | Lt e1 e2 =>
      x ← eval_expr s address e1; y ← eval_expr s address e2;
      Some (if x <? y then 1 else 0)
  | And e1 e2 =>
      x ← eval_expr s address e1;
      if x =? 0 then Some 0
      else y ← eval_expr s address e2; Some (if y =? 0 then 0 else 1)
  end.

Fixpoint exec_stmt (s : program_memory) (address : Z) (b : stmt)
  : option reply :=
  match b with
  | ReturnName name => Some (Name name)
  | ReturnWord e => w ← eval_expr s address e; Some (Word w)
  | IfElse condition then_ else_ =>
      c ← eval_expr s address condition;
      if c =? 0 then exec_stmt s address else_
      else exec_stmt s address then_
  end.

(** Does the expression, or the statement, mention [data]? *)
Fixpoint expr_reads_data (e : expr) : bool :=
  match e with
  | Address | Const _ => false
  | DataAt _ => true
  | Ge e1 e2 | Lt e1 e2 | And e1 e2 =>
      expr_reads_data e1 || expr_reads_data e2
  end.

Fixpoint stmt_reads_data (b : stmt) : bool :=
  match b with
  | ReturnName _ => false
  | ReturnWord e => expr_reads_data e
  | IfElse condition then_ else_ =>
      expr_reads_data condition || stmt_reads_data then_
      || stmt_reads_data else_
  end.

(** The body of [program_memory_subroutine_name], lines 140-147. *)
Definition subroutine_name_body `{cpu_header} : stmt :=
  IfElse (And (Ge Address (Const RESET_vect)) (Lt Address (Const main)))
    (ReturnName "RESET_vect")
  (IfElse (And (Ge Address (Const main)) (Lt Address (Const main_loop)))
    (ReturnName "main")
  (IfElse (And (Ge Address (Const main_loop)) (Lt Address (Const led_blink)))
    (ReturnName "main_loop")
  (IfElse (And (Ge Address (Const led_blink)) (Lt Address (Const setup)))
    (ReturnName "led_blink")
  (IfElse (And (Ge Address (Const setup)) (Lt Address (Const init_ports)))
    (ReturnName "setup")
  (IfElse (And (Ge Address (Const init_ports))
               (Lt Address (Const init_registers)))
    (ReturnName "init_ports")
  (IfElse (And (Ge Address (Const init_registers)) (Lt Address (Const end_)))
    (ReturnName "init_registers")
    (ReturnName "Unknown"))))))).

(** The body of [program_memory_read], lines 122-129. *)
Definition read_body `{cpu_header} : stmt :=
  IfElse (Lt Address (Const PROGRAM_MEMORY_ADDRESS_WIDTH))
    (ReturnWord (DataAt Address))
    (ReturnWord (Const 0x00)).

(** ** Proof steps for the chain of range tests *)

(** Replace the start-address macros by their numbers. *)
Ltac unfold_addresses :=
  unfold main, main_loop, led_blink, setup, init_ports, init_registers,
    end_ in *.

(** Split on each comparison in the goal, closing the impossible cases. *)
Ltac decide_tests :=
  repeat match goal with
    | |- context [Z.leb ?x ?y] => destruct (Z.leb_spec x y); simpl; try lia
    | |- context [Z.ltb ?x ?y] => destruct (Z.ltb_spec x y); simpl; try lia
    end.

(** * Properties of the encoder *)

Section Encoder.

Lemma word_bits_div_mod w lo len :
  0 <= lo -> 0 <= len -> word_bits w lo len = (w / 2 ^ lo) mod 2 ^ len.
Proof.
  intros Hlo Hlen. unfold word_bits.
  by rewrite Z.land_ones, Z.shiftr_div_pow2.
Qed.

Lemma uint8_testbit_high x n : is_uint8 x -> 8 <= n -> Z.testbit x n = false.
Proof.
  intros [Hx0 Hx1] Hn. apply Z.testbit_false; [lia|].
  rewrite Z.div_small; [done|]. split; [done|].
  apply Z.lt_le_trans with (2 ^ 8); [done|].
  apply Z.pow_le_mono_r; lia.
Qed.

Lemma shifted_fields_disjoint x y k :
  is_uint8 y -> 0 <= k -> Z.land (Z.shiftl x (k + 8)) (Z.shiftl y k) = 0.
Proof.
  intros Hy Hk. apply Z.bits_inj'. intros n Hn.
  rewrite Z.land_spec, Z.bits_0.
  destruct (Z.lt_ge_cases n (k + 8)) as [Hlt|Hge].
  - rewrite (Z.shiftl_spec_low x) by done. done.
  - rewrite (Z.shiftl_spec y) by done.
    rewrite (uint8_testbit_high y) by (done || lia).
    apply andb_false_r.
Qed.

Lemma lor_disjoint_add x y : Z.land x y = 0 -> Z.lor x y = x + y.
Proof.
  intros Hd. rewrite <- Z.lxor_lor by done.
  symmetry. by apply Z.add_nocarry_lxor.
Qed.

(** On bytes the or of the shifted fields is their weighted sum. *)
Lemma assemble_sum op_code op1 op2 :
  is_uint8 op_code -> is_uint8 op1 -> is_uint8 op2 ->
  assemble op_code op1 op2 = op_code * 65536 + op1 * 256 + op2.
Proof.
  intros Ho H1 H2. unfold assemble, to_uint32.
  assert (Hinner : Z.lor (Z.shiftl op_code 16) (Z.shiftl op1 8)
                   = op_code * 65536 + op1 * 256).
  { rewrite lor_disjoint_add.
    - rewrite !Z.shiftl_mul_pow2 by lia. reflexivity.
    - apply (shifted_fields_disjoint op_code op1 8); [done | lia]. }
  rewrite Hinner.
  assert (Hshape : op_code * 65536 + op1 * 256 = Z.shiftl (op_code * 256 + op1) 8).
  { rewrite Z.shiftl_mul_pow2 by lia. change (2 ^ 8) with 256. lia. }
  rewrite lor_disjoint_add.
  - apply Z.mod_small. unfold is_uint8 in *. lia.
  - rewrite Hshape.
    replace op2 with (Z.shiftl op2 0) at 1 by apply Z.shiftl_0_r.
    apply (shifted_fields_disjoint _ op2 0); [done | lia].
Qed.

Lemma assemble_opcode op_code op1 op2 :
  is_uint8 op_code -> is_uint8 op1 -> is_uint8 op2 ->
  opcode_field (assemble op_code op1 op2) = op_code.
Proof.
  intros Ho H1 H2. unfold opcode_field.
  rewrite word_bits_div_mod, assemble_sum by (done || lia).
  unfold is_uint8 in *. change (2 ^ 16) with 65536. change (2 ^ 8) with 256.
  Z.div_mod_to_equations. lia.
Qed.

Lemma assemble_operand1 op_code op1 op2 :
  is_uint8 op_code -> is_uint8 op1 -> is_uint8 op2 ->
  operand1_field (assemble op_code op1 op2) = op1.
Proof.
  intros Ho H1 H2. unfold operand1_field.
  rewrite word_bits_div_mod, assemble_sum by (done || lia).
  unfold is_uint8 in *. change (2 ^ 8) with 256.
  Z.div_mod_to_equations. lia.
Qed.

Lemma assemble_operand2 op_code op1 op2 :
  is_uint8 op_code -> is_uint8 op1 -> is_uint8 op2 ->
  operand2_field (assemble op_code op1 op2) = op2.
Proof.
  intros Ho H1 H2. unfold operand2_field.
  rewrite word_bits_div_mod, assemble_sum by (done || lia).
  unfold is_uint8 in *. change (2 ^ 0) with 1. change (2 ^ 8) with 256.
  Z.div_mod_to_equations. lia.
Qed.

Lemma assemble_24_bits op_code op1 op2 :
  is_uint8 op_code -> is_uint8 op1 -> is_uint8 op2 ->
  0 <= assemble op_code op1 op2 < 2 ^ 24.
Proof.
  intros Ho H1 H2. rewrite assemble_sum by done.
  unfold is_uint8 in *. change (2 ^ 24) with 16777216. lia.
Qed.

Lemma assemble_unused_bits op_code op1 op2 :
  is_uint8 op_code -> is_uint8 op1 -> is_uint8 op2 ->
  unused_bits (assemble op_code op1 op2) = 0.
Proof.
  intros Ho H1 H2. unfold unused_bits.
  rewrite Z.shiftr_div_pow2 by lia.
  apply Z.div_small. by apply assemble_24_bits.
Qed.

Example assemble_jmp_main : assemble 0x16 8 0 = 0x160800.
Proof. reflexivity. Qed.

Example assemble_all_ones : assemble 255 255 255 = 0xFFFFFF.
Proof. reflexivity. Qed.

(** C3. For all op_code, op1 and op2 in [0,255], the word
    assemble(op_code, op1, op2) carries op_code in bits 23-16, op1 in bits
    15-8 and op2 in bits 7-0, and every bit above bit 23 is zero: the word
    shifted right by 24 is zero, and so is each single bit from 24 on. *)
Theorem assemble_layout op_code op1 op2 :
  is_uint8 op_code -> is_uint8 op1 -> is_uint8 op2 ->
  opcode_field (assemble op_code op1 op2) = op_code
  /\ operand1_field (assemble op_code op1 op2) = op1
  /\ operand2_field (assemble op_code op1 op2) = op2
  /\ unused_bits (assemble op_code op1 op2) = 0
  /\ (forall i, 24 <= i -> Z.testbit (assemble op_code op1 op2) i = false).
Proof.
  intros Ho H1 H2. repeat split.
  - by apply assemble_opcode.
  - by apply assemble_operand1.
  - by apply assemble_operand2.
  - by apply assemble_unused_bits.
  - intros i Hi.
    pose proof (assemble_24_bits op_code op1 op2 Ho H1 H2) as [Hlo Hhi].
    apply Z.testbit_false; [lia|].
    rewrite Z.div_small; [done|]. split; [done|].
    apply Z.lt_le_trans with (2 ^ 24); [done|].
    apply Z.pow_le_mono_r; lia.
Qed.

Lemma assemble_layout_witness :
  opcode_field (assemble 0x16 8 0) = 0x16
  /\ operand1_field (assemble 0x16 8 0) = 8
  /\ operand2_field (assemble 0x16 8 0) = 0
  /\ unused_bits (assemble 0x16 8 0) = 0
  /\ (forall i, 24 <= i -> Z.testbit (assemble 0x16 8 0) i = false).
Proof. apply (assemble_layout 0x16 8 0); unfold is_uint8; lia. Defined.

(** C4. The encoder is injective on bytes: two triples of bytes that
    differ in some component are assembled to different words. *)
Theorem assemble_injective o1 a1 b1 o2 a2 b2 :
  is_uint8 o1 -> is_uint8 a1 -> is_uint8 b1 ->
  is_uint8 o2 -> is_uint8 a2 -> is_uint8 b2 ->
  (o1, a1, b1) <> (o2, a2, b2) ->
  assemble o1 a1 b1 <> assemble o2 a2 b2.
Proof.
  intros Ho1 Ha1 Hb1 Ho2 Ha2 Hb2 Hne Heq. apply Hne.
  pose proof (assemble_opcode o1 a1 b1 Ho1 Ha1 Hb1) as Eo.
  pose proof (assemble_operand1 o1 a1 b1 Ho1 Ha1 Hb1) as Ea.
  pose proof (assemble_operand2 o1 a1 b1 Ho1 Ha1 Hb1) as Eb.
  rewrite Heq in Eo, Ea, Eb.
  rewrite assemble_opcode in Eo by done.
  rewrite assemble_operand1 in Ea by done.
  rewrite assemble_operand2 in Eb by done.
  congruence.
Qed.

Lemma assemble_injective_witness : assemble 1 16 7 <> assemble 1 17 7.
Proof.
  apply (assemble_injective 1 16 7 1 17 7); unfold is_uint8; try lia.
  intros Heq. discriminate Heq.
Defined.

End Encoder.

(** * Properties of the program memory *)

Section Store.

Context `{header : cpu_header}.

(** ** Array accesses *)

Lemma array_set_in_bounds d i v :
  0 <= i < Z.of_nat (length d) ->
  array_set d i v = Some (<[Z.to_nat i := v]> d).
Proof. intros Hi. unfold array_set. by rewrite bool_decide_eq_true_2. Qed.

Lemma array_set_Some d i v d' :
  array_set d i v = Some d' ->
  0 <= i < Z.of_nat (length d) /\ d' = <[Z.to_nat i := v]> d.
Proof.
  unfold array_set. case_bool_decide as Hi; [|done].
  intros [= <-]. done.
Qed.

Lemma array_get_in_bounds d i :
  0 <= i < Z.of_nat (length d) -> is_Some (array_get d i).
Proof.
  intros Hi. unfold array_get. rewrite bool_decide_eq_true_2 by lia.
  apply lookup_lt_is_Some. lia.
Qed.

Lemma array_get_replicate n i :
  0 <= i < Z.of_nat n -> array_get (replicate n 0) i = Some 0.
Proof.
  intros Hi. unfold array_get. rewrite bool_decide_eq_true_2 by lia.
  apply lookup_replicate_2. lia.
Qed.

Lemma array_get_set_eq d i v :
  0 <= i < Z.of_nat (length d) ->
  array_get (<[Z.to_nat i := v]> d) i = Some v.
Proof.
  intros Hi. unfold array_get. rewrite bool_decide_eq_true_2 by lia.
  apply list_lookup_insert_eq. lia.
Qed.

Lemma array_get_set_ne d i j v :
  0 <= i -> i <> j ->
  array_get (<[Z.to_nat i := v]> d) j = array_get d j.
Proof.
  intros Hi Hne. unfold array_get. case_bool_decide as Hj; [|done].
  apply list_lookup_insert_ne. lia.
Qed.

(** ** Sequences of assignments *)

Lemma write_words_in_bounds code : forall d,
  Forall (fun p => 0 <= p.1 < Z.of_nat (length d)) code ->
  is_Some (write_words d code).
Proof.
  induction code as [|[i v] code IH]; intros d Hall; simpl.
  - by eexists.
  - apply Forall_cons in Hall as [Hi Hall]. simpl in Hi.
    rewrite array_set_in_bounds by done. simpl.
    apply IH. by rewrite length_insert.
Qed.

Lemma write_words_length code : forall d d',
  write_words d code = Some d' -> length d' = length d.
Proof.
  induction code as [|[i v] code IH]; intros d d' Hrun; simpl in Hrun.
  - by injection Hrun as <-.
  - destruct (array_set d i v) as [d1|] eqn:Hset; [|done]. simpl in Hrun.
    apply array_set_Some in Hset as [_ ->].
    rewrite (IH _ _ Hrun). apply length_insert.
Qed.

(** A slot that is not assigned to keeps its word. *)
Lemma write_words_frame code : forall d d' a,
  write_words d code = Some d' ->
  a ∉ code.*1 ->
  array_get d' a = array_get d a.
Proof.
  induction code as [|[i v] code IH]; intros d d' a Hrun Hnot; simpl in Hrun.
  - by injection Hrun as <-.
  - destruct (array_set d i v) as [d1|] eqn:Hset; [|done]. simpl in Hrun.
    apply array_set_Some in Hset as [Hi ->].
    simpl in Hnot. apply not_elem_of_cons in Hnot as [Hne Hnot].
    rewrite (IH _ _ _ Hrun Hnot).
    apply array_get_set_ne; [lia | done].
Qed.

(** A slot that is assigned to once holds the word assigned. *)
Lemma write_words_lookup code : forall d d' a w,
  write_words d code = Some d' ->
  NoDup code.*1 ->
  (a, w) ∈ code ->
  array_get d' a = Some w.
Proof.
  induction code as [|[i v] code IH]; intros d d' a w Hrun Hnd Hin;
    simpl in Hrun.
  - by apply elem_of_nil in Hin.
  - destruct (array_set d i v) as [d1|] eqn:Hset; [|done]. simpl in Hrun.
    apply array_set_Some in Hset as [Hi ->].
    simpl in Hnd. apply NoDup_cons in Hnd as [Hfresh Hnd].
    apply elem_of_cons in Hin as [[= -> ->]|Hin].
    + rewrite (write_words_frame _ _ _ _ Hrun Hfresh).
      by apply array_get_set_eq.
    + by apply (IH _ _ _ _ Hrun Hnd).
Qed.

(** ** The fixed program *)

Lemma written_slots_eq : written_slots = seqZ 0 30.
Proof. reflexivity. Qed.

Lemma written_slots_range a : a ∈ written_slots <-> 0 <= a < 30.
Proof. rewrite written_slots_eq, elem_of_seqZ. lia. Qed.

Lemma written_slots_NoDup : NoDup written_slots.
Proof. rewrite written_slots_eq. apply NoDup_seqZ. Qed.

Lemma machine_code_in_bounds (d : list Z) :
  30 <= Z.of_nat (length d) ->
  Forall (fun p => 0 <= p.1 < Z.of_nat (length d)) machine_code.
Proof.
  intros Hd. apply Forall_forall. intros [a w] Hin. simpl.
  assert (Ha : a ∈ written_slots).
  { unfold written_slots. apply list_elem_of_fmap. by exists (a, w). }
  apply written_slots_range in Ha. lia.
Qed.

(** ** The one-time population *)

Lemma program_memory_write_first s :
  program_memory_initialized s = false ->
  30 <= Z.of_nat (length (data s)) ->
  exists d',
    write_words (data s) machine_code = Some d'
    /\ program_memory_write s
       = Some {| data := d'; program_memory_initialized := true |}.
Proof.
  intros Hflag Hlen.
  destruct (write_words_in_bounds machine_code (data s)) as [d' Hd'].
  { by apply machine_code_in_bounds. }
  exists d'. split; [done|].
  unfold program_memory_write. rewrite Hflag, Hd'. reflexivity.
Qed.

Lemma program_memory_write_again s :
  program_memory_initialized s = true -> program_memory_write s = Some s.
Proof. intros Hflag. unfold program_memory_write. by rewrite Hflag. Qed.

Lemma program_memory_write_flag s s' :
  program_memory_write s = Some s' -> program_memory_initialized s' = true.
Proof.
  unfold program_memory_write.
  destruct (program_memory_initialized s) eqn:Hflag.
  - by intros [= <-].
  - destruct (write_words (data s) machine_code); [|done].
    by intros [= <-].
Qed.

Lemma program_memory_write_length s s' :
  program_memory_write s = Some s' -> length (data s') = length (data s).
Proof.
  unfold program_memory_write.
  destruct (program_memory_initialized s).
  - by intros [= <-].
  - destruct (write_words (data s) machine_code) as [d'|] eqn:Hd'; [|done].
    intros [= <-]. simpl. by apply write_words_length in Hd'.
Qed.

(** What a call leaves alone: every slot outside 0..29. *)
Lemma program_memory_write_frame s s' a :
  program_memory_write s = Some s' ->
  ~ (0 <= a < 30) ->
  array_get (data s') a = array_get (data s) a.
Proof.
  unfold program_memory_write.
  destruct (program_memory_initialized s).
  - by intros [= <-].
  - destruct (write_words (data s) machine_code) as [d'|] eqn:Hd'; [|done].
    intros [= <-] Ha. simpl.
    apply (write_words_frame _ _ _ _ Hd').
    fold written_slots. by rewrite written_slots_range.
Qed.

Lemma power_on_well_sized : well_sized power_on.
Proof. unfold well_sized, power_on. simpl. apply length_replicate. Qed.

Lemma program_memory_write_well_sized s s' :
  well_sized s -> program_memory_write s = Some s' -> well_sized s'.
Proof.
  unfold well_sized. intros Hs Hw.
  by rewrite (program_memory_write_length _ _ Hw).
Qed.

Lemma reserved_slots_in_machine_code a :
  1 <= a <= 7 -> (a, instruction NOP 0 0) ∈ machine_code.
Proof.
  intros Ha.
  assert (Hcases : a = 1 \/ a = 2 \/ a = 3 \/ a = 4 \/ a = 5 \/ a = 6 \/ a = 7)
    by lia.
  unfold machine_code.
  destruct Hcases as [->|[->|[->|[->|[->|[->| ->]]]]]];
    repeat (first [apply list_elem_of_here | apply list_elem_of_further]).
Qed.

(** C1 (as amended). With room for the program (capacity at least 30),
    the first call of populate() returns and sets the flag.  It assigns to
    the slots 0..29 and to no other: each of them then holds the word the
    encoder gives for its instruction of the fixed program, the reserved
    slots 1..7 hold assemble(NOP,0,0), and a slot outside 0..29 keeps the
    word it had.  The slots 30..capacity-1 therefore still hold the zero
    word the static array starts with, which is assemble(NOP,0,0) when the
    code of NOP is 0; every slot below the capacity holds a defined word. *)
Theorem populate_first_call :
  30 <= PROGRAM_MEMORY_ADDRESS_WIDTH ->
  exists s,
    program_memory_write power_on = Some s
    /\ program_memory_initialized s = true
    /\ well_sized s
    /\ (forall a, a ∈ written_slots <-> 0 <= a < 30)
    /\ (forall a w, (a, w) ∈ machine_code -> array_get (data s) a = Some w)
    /\ (forall a, 1 <= a <= 7 ->
          array_get (data s) a = Some (instruction NOP 0 0))
    /\ (forall a, ~ (0 <= a < 30) ->
          array_get (data s) a = array_get (data power_on) a)
    /\ (forall a, 30 <= a < PROGRAM_MEMORY_ADDRESS_WIDTH ->
          array_get (data s) a = Some 0)
    /\ (NOP = 0 -> forall a, 30 <= a < PROGRAM_MEMORY_ADDRESS_WIDTH ->
          array_get (data s) a = Some (assemble NOP 0 0))
    /\ (forall a, 0 <= a < PROGRAM_MEMORY_ADDRESS_WIDTH ->
          is_Some (array_get (data s) a)).
Proof.
  intros Hcap.
  assert (Hlen : length (data power_on) = Z.to_nat PROGRAM_MEMORY_ADDRESS_WIDTH)
    by apply power_on_well_sized.
  destruct (program_memory_write_first power_on) as (d' & Hd' & Hw);
    [done | lia |].
  eexists. split; [exact Hw|].
  assert (Hframe : forall a, ~ (0 <= a < 30) ->
            array_get d' a = array_get (data power_on) a).
  { intros a Ha. apply (program_memory_write_frame _ _ _ Hw Ha). }
  assert (Hzero : forall a, 30 <= a < PROGRAM_MEMORY_ADDRESS_WIDTH ->
            array_get d' a = Some 0).
  { intros a Ha. rewrite Hframe by lia. simpl.
    apply array_get_replicate. lia. }
  assert (Hcode : forall a w, (a, w) ∈ machine_code -> array_get d' a = Some w).
  { intros a w Hin.
    apply (write_words_lookup _ _ _ _ _ Hd' written_slots_NoDup Hin). }
  simpl. split_and!.
  - reflexivity.
  - unfold well_sized. simpl. by rewrite (write_words_length _ _ _ Hd').
  - apply written_slots_range.
  - exact Hcode.
  - intros a Ha. apply Hcode. by apply reserved_slots_in_machine_code.
  - exact Hframe.
  - exact Hzero.
  - intros Hnop a Ha. rewrite Hnop. by apply Hzero.
  - intros a Ha. unfold is_Some.
    apply array_get_in_bounds. rewrite (write_words_length _ _ _ Hd').
    rewrite Hlen. lia.
Qed.

(** C7. populate() is idempotent.  On a store with room for the program a
    call returns; a second call returns as well, changes nothing, and the
    store after two calls is the store after one, so every read of every
    address gives the same word after one call and after two. *)
Theorem populate_idempotent s :
  30 <= Z.of_nat (length (data s)) ->
  exists s1,
    program_memory_write s = Some s1
    /\ program_memory_write s1 = Some s1
    /\ run_calls s [Populate] = Some s1
    /\ run_calls s [Populate; Populate] = Some s1
    /\ (forall s2 address,
          run_calls s [Populate; Populate] = Some s2 ->
          program_memory_read s2 address = program_memory_read s1 address).
Proof.
  intros Hlen.
  assert (Hfirst : exists s1, program_memory_write s = Some s1).
  { destruct (program_memory_initialized s) eqn:Hflag.
    - exists s. by apply program_memory_write_again.
    - destruct (program_memory_write_first s Hflag Hlen) as (d' & _ & Hw).
      eauto. }
  destruct Hfirst as [s1 Hw1]. exists s1.
  assert (Hw2 : program_memory_write s1 = Some s1).
  { apply program_memory_write_again.
    by apply (program_memory_write_flag s). }
  assert (Htwice : run_calls s [Populate; Populate] = Some s1).
  { simpl. rewrite Hw1. simpl. rewrite Hw2. reflexivity. }
  split_and!; try done.
  - simpl. rewrite Hw1. reflexivity.
  - intros s2 address Hs2. rewrite Htwice in Hs2. by injection Hs2 as <-.
Qed.

(** ** Reading *)

Lemma program_memory_read_in_range s address :
  0 <= address < PROGRAM_MEMORY_ADDRESS_WIDTH ->
  program_memory_read s address = data s !! Z.to_nat address.
Proof.
  intros Ha. unfold program_memory_read, array_get.
  destruct (Z.ltb_spec address PROGRAM_MEMORY_ADDRESS_WIDTH); [|lia].
  by rewrite bool_decide_eq_true_2 by lia.
Qed.

Lemma program_memory_read_beyond s address :
  PROGRAM_MEMORY_ADDRESS_WIDTH <= address ->
  program_memory_read s address = Some 0.
Proof.
  intros Ha. unfold program_memory_read.
  by destruct (Z.ltb_spec address PROGRAM_MEMORY_ADDRESS_WIDTH); [lia|].
Qed.

Lemma program_memory_read_total s address :
  well_sized s -> 0 <= address -> is_Some (program_memory_read s address).
Proof.
  intros Hs Ha.
  destruct (Z.lt_ge_cases address PROGRAM_MEMORY_ADDRESS_WIDTH) as [Hlt|Hge].
  - rewrite program_memory_read_in_range by lia.
    apply lookup_lt_is_Some. rewrite Hs. lia.
  - rewrite program_memory_read_beyond by done. by eexists.
Qed.

(** Every history of calls from the start keeps the array at its size. *)
Lemma run_calls_well_sized cs : forall s s',
  well_sized s -> run_calls s cs = Some s' -> well_sized s'.
Proof.
  induction cs as [|c cs IH]; intros s s' Hs Hrun; simpl in Hrun.
  - by injection Hrun as <-.
  - destruct (run_call s c) as [[s1 r]|] eqn:Hc; [|done]. simpl in Hrun.
    apply (IH s1 s'); [|done].
    destruct c as [|address|address]; simpl in Hc.
    + destruct (program_memory_write s) as [s2|] eqn:Hw; [|done].
      injection Hc as <- _. by apply (program_memory_write_well_sized s).
    + destruct (program_memory_read s address); [|done].
      by injection Hc as <- _.
    + by injection Hc as <- _.
Qed.

(** C2. For every address at or beyond the declared capacity, read
    returns instead of failing, and the word it returns has a zero opcode
    field and zero operand fields.  With 0x00 as the code of NOP (the
    header's value, as the comment on the function has it) this is the
    no-operation word assemble(NOP,0,0), whose opcode field is the code of
    NOP. *)
Theorem read_beyond_capacity s address :
  NOP = 0x00 ->
  PROGRAM_MEMORY_ADDRESS_WIDTH <= address ->
  exists w,
    program_memory_read s address = Some w
    /\ w = assemble NOP 0 0
    /\ opcode_field w = NOP
    /\ operand1_field w = 0
    /\ operand2_field w = 0.
Proof.
  intros Hnop Ha. exists 0. rewrite Hnop.
  split; [by apply program_memory_read_beyond|].
  split_and!; reflexivity.
Qed.

(** C8. Under the reference sizing (capacity 256, an 8-bit address) the
    test of read succeeds for every address, the index is inside the
    array, and read returns the stored word data[address]: the other
    branch is never taken. *)
Theorem read_reference_sizing s address :
  PROGRAM_MEMORY_ADDRESS_WIDTH = 256 ->
  well_sized s ->
  is_uint8 address ->
  (address <? PROGRAM_MEMORY_ADDRESS_WIDTH) = true
  /\ (Z.to_nat address < length (data s))%nat
  /\ exists w,
       data s !! Z.to_nat address = Some w
       /\ program_memory_read s address = Some w.
Proof.
  intros Hcap Hs [Ha0 Ha1].
  assert (Hidx : (Z.to_nat address < length (data s))%nat).
  { rewrite Hs, Hcap. lia. }
  split; [apply Z.ltb_lt; lia|]. split; [done|].
  destruct (lookup_lt_is_Some_2 _ _ Hidx) as [w Hw].
  exists w. split; [done|].
  rewrite program_memory_read_in_range by lia. done.
Qed.

(** C10. Before any call of populate() the flag is clear and read returns
    the zero word for every 8-bit address; and after any history of
    calls, with or without populate(), read returns a word for every
    8-bit address. *)
Theorem read_before_populate address :
  is_uint8 address ->
  program_memory_initialized power_on = false
  /\ program_memory_read power_on address = Some 0
  /\ (forall cs s, run_calls power_on cs = Some s ->
        is_Some (program_memory_read s address)).
Proof.
  intros [Ha0 Ha1]. split; [done|]. split.
  - destruct (Z.lt_ge_cases address PROGRAM_MEMORY_ADDRESS_WIDTH) as [Hlt|Hge].
    + rewrite program_memory_read_in_range by lia. simpl.
      apply lookup_replicate_2. lia.
    + by apply program_memory_read_beyond.
  - intros cs s Hrun. apply program_memory_read_total; [|done].
    apply (run_calls_well_sized cs power_on s); [|done].
    apply power_on_well_sized.
Qed.

(** ** Subroutine names *)

Lemma subroutine_name_first_match address :
  program_memory_subroutine_name address
  = first_match subroutine_ranges address.
Proof. reflexivity. Qed.

Lemma subroutine_name_beyond_end address :
  end_ <= address -> program_memory_subroutine_name address = "Unknown".
Proof.
  intros Ha. unfold program_memory_subroutine_name. unfold_addresses.
  rewrite !Z.geb_leb. decide_tests; reflexivity.
Qed.

Lemma subroutine_name_known address :
  RESET_vect = 0 -> 0 <= address < end_ ->
  program_memory_subroutine_name address <> "Unknown".
Proof.
  intros Hreset Ha. unfold program_memory_subroutine_name. unfold_addresses.
  rewrite !Z.geb_leb, Hreset. decide_tests; discriminate.
Qed.

Lemma subroutine_ranges_tile :
  RESET_vect = 0 -> tiles 0 end_ subroutine_ranges.
Proof.
  intros Hreset. unfold subroutine_ranges. simpl. rewrite Hreset.
  unfold_addresses. split_and!; lia.
Qed.

Lemma subroutine_ranges_disjoint address :
  RESET_vect = 0 -> 0 <= address < end_ ->
  length (ranges_containing subroutine_ranges address) = 1%nat.
Proof.
  intros Hreset Ha. unfold subroutine_ranges. rewrite Hreset.
  assert (Hin : address ∈ seqZ 0 30).
  { apply elem_of_seqZ. unfold end_ in Ha. lia. }
  clear Ha. revert address Hin. apply Forall_forall.
  apply (bool_decide_unpack _). vm_compute. reflexivity.
Qed.

(** C5. With the reset vector at address 0, the named ranges, in the
    order they are tested, tile [0, 30): the first starts at 0, none is
    empty, each ends where the next starts and the last ends at 30, so
    each address of [0, 30) lies in exactly one of them.  [0, 30) is the
    populated region, the name lookup is the first match in that table,
    it gives a name other than "Unknown" for each address in [0, 30) and
    "Unknown" for each address in [30, 255]. *)
Theorem subroutine_ranges_cover :
  RESET_vect = 0 ->
  tiles 0 30 subroutine_ranges
  /\ (forall a, 0 <= a < 30 ->
        length (ranges_containing subroutine_ranges a) = 1%nat)
  /\ (forall a, a ∈ written_slots <-> 0 <= a < 30)
  /\ (forall a, program_memory_subroutine_name a
                = first_match subroutine_ranges a)
  /\ (forall a, 0 <= a < 30 -> program_memory_subroutine_name a <> "Unknown")
  /\ (forall a, 30 <= a <= 255 -> program_memory_subroutine_name a = "Unknown").
Proof.
  intros Hreset. split_and!.
  - by apply subroutine_ranges_tile.
  - intros a Ha. by apply subroutine_ranges_disjoint.
  - apply written_slots_range.
  - apply subroutine_name_first_match.
  - intros a Ha. by apply subroutine_name_known.
  - intros a Ha. apply subroutine_name_beyond_end. unfold end_. lia.
Qed.

Lemma to_uint8_id x : is_uint8 x -> to_uint8 x = x.
Proof. intros Hx. unfold to_uint8. by apply Z.mod_small. Qed.

Lemma to_uint8_range x : is_uint8 (to_uint8 x).
Proof. unfold is_uint8, to_uint8. apply Z.mod_pos_bound. done. Qed.

(** C6. With the fixed program, after populate(): read(0) returns a word
    whose opcode field is JMP and whose first operand is the start address
    of main, 8; the name at address 8 is "main", the name at address 13 is
    "led_blink", and the name at 255, as at any address from the declared
    end 30 on, is "Unknown". *)
Theorem reference_scenario :
  30 <= PROGRAM_MEMORY_ADDRESS_WIDTH ->
  is_uint8 JMP ->
  (exists s w,
     program_memory_write power_on = Some s
     /\ program_memory_read s 0 = Some w
     /\ opcode_field w = JMP
     /\ operand1_field w = main
     /\ main = 8)
  /\ program_memory_subroutine_name 8 = "main"
  /\ program_memory_subroutine_name 13 = "led_blink"
  /\ program_memory_subroutine_name 255 = "Unknown"
  /\ (forall a, end_ <= a -> program_memory_subroutine_name a = "Unknown")
  /\ end_ = 30.
Proof.
  intros Hcap Hjmp. split_and!.
  - destruct (program_memory_write_first power_on) as (d' & Hd' & Hw).
    { done. }
    { pose proof power_on_well_sized as Hs. unfold well_sized in Hs. lia. }
    assert (Hslot : array_get d' 0 = Some (instruction JMP main 0)).
    { apply (write_words_lookup _ _ _ _ _ Hd' written_slots_NoDup).
      unfold machine_code. apply list_elem_of_here. }
    eexists _, (instruction JMP main 0). split; [exact Hw|].
    split.
    { rewrite program_memory_read_in_range by lia. exact Hslot. }
    unfold instruction. rewrite (to_uint8_id JMP) by done.
    split_and!.
    + apply assemble_opcode; [done | apply to_uint8_range ..].
    + rewrite assemble_operand1; [reflexivity | done | apply to_uint8_range ..].
    + reflexivity.
  - unfold program_memory_subroutine_name. unfold_addresses.
    rewrite !Z.geb_leb. decide_tests; reflexivity.
  - unfold program_memory_subroutine_name. unfold_addresses.
    rewrite !Z.geb_leb. decide_tests; reflexivity.
  - apply subroutine_name_beyond_end. unfold end_. lia.
  - apply subroutine_name_beyond_end.
  - reflexivity.
Qed.

(** ** What the bodies read *)

(** An expression that does not mention [data] has the same value in
    every store. *)
Lemma expr_without_data_same s1 s2 address e :
  expr_reads_data e = false ->
  eval_expr s1 address e = eval_expr s2 address e.
Proof.
  induction e as [| z | index IH | e1 IH1 e2 IH2 | e1 IH1 e2 IH2
                 | e1 IH1 e2 IH2]; simpl; intros Hfree;
    try done;
    apply orb_false_iff in Hfree as [Hfree1 Hfree2];
    by rewrite (IH1 Hfree1), (IH2 Hfree2).
Qed.

Lemma stmt_without_data_same s1 s2 address b :
  stmt_reads_data b = false ->
  exec_stmt s1 address b = exec_stmt s2 address b.
Proof.
  induction b as [name | e | condition then_ IHt else_ IHe]; simpl;
    intros Hfree.
  - done.
  - by rewrite (expr_without_data_same s1 s2 address e Hfree).
  - apply orb_false_iff in Hfree as [Hfree He].
    apply orb_false_iff in Hfree as [Hc Ht].
    by rewrite (expr_without_data_same s1 s2 address condition Hc),
      (IHt Ht), (IHe He).
Qed.

(** The bodies run to what the functions return. *)
Lemma subroutine_name_body_runs s address :
  exec_stmt s address subroutine_name_body
  = Some (Name (program_memory_subroutine_name address)).
Proof.
  unfold subroutine_name_body, program_memory_subroutine_name. simpl.
  rewrite !Z.geb_leb. decide_tests; reflexivity.
Qed.

Lemma read_body_runs s address :
  exec_stmt s address read_body = Word <$> program_memory_read s address.
Proof.
  unfold read_body, program_memory_read. simpl.
  destruct (address <? PROGRAM_MEMORY_ADDRESS_WIDTH); simpl; [|done].
  by destruct (array_get (data s) address).
Qed.

(** C9. The name lookup depends on the address alone.  Its body, run
    against the store, mentions no part of it: in any two stores, and so
    before and after populate(), the body returns the same name for the
    same address, and that name is the one the lookup function gives. *)
Theorem subroutine_name_reads_no_state s1 s2 address :
  stmt_reads_data subroutine_name_body = false
  /\ exec_stmt s1 address subroutine_name_body
     = exec_stmt s2 address subroutine_name_body
  /\ (forall s', program_memory_write s1 = Some s' ->
        exec_stmt s' address subroutine_name_body
        = exec_stmt s1 address subroutine_name_body)
  /\ exec_stmt s1 address subroutine_name_body
     = Some (Name (program_memory_subroutine_name address)).
Proof.
  assert (Hfree : stmt_reads_data subroutine_name_body = false)
    by reflexivity.
  split_and!.
  - exact Hfree.
  - by apply stmt_without_data_same.
  - intros s' _. by apply stmt_without_data_same.
  - apply subroutine_name_body_runs.
Qed.

End Store.

(** * The theorems at the sample header *)

Section Evaluation.

Local Existing Instance sample_header.

Example populated_slot_0 :
  (s ← program_memory_write power_on; program_memory_read s 0)
  = Some 0x160800.
Proof. vm_compute. reflexivity. Qed.

Example populated_slot_21 :
  (s ← program_memory_write power_on; program_memory_read s 21)
  = Some 0x011007.
Proof. vm_compute. reflexivity. Qed.

Example populated_slot_28 :
  (s ← program_memory_write power_on; program_memory_read s 28)
  = Some 0x011B03.
Proof. vm_compute. reflexivity. Qed.

Example populated_slot_30 :
  (s ← program_memory_write power_on; program_memory_read s 30) = Some 0.
Proof. vm_compute. reflexivity. Qed.

Example populated_slot_255 :
  (s ← program_memory_write power_on; program_memory_read s 255) = Some 0.
Proof. vm_compute. reflexivity. Qed.

Example names_of_the_program :
  program_memory_subroutine_name <$> [0; 7; 8; 9; 12; 13; 17; 18; 21; 24; 29; 30]
  = ["RESET_vect"; "RESET_vect"; "main"; "main_loop"; "main_loop";
     "led_blink"; "led_blink"; "setup"; "init_ports"; "init_registers";
     "init_registers"; "Unknown"]%string.
Proof. vm_compute. reflexivity. Qed.

(** Slot 30 is below the capacity and is not assigned to: populate() does
    not write every slot. *)
Lemma populate_skips_slot_30 : ~ @writes_every_slot sample_header.
Proof.
  intros Hall.
  assert (Hin : 30 ∈ written_slots) by (apply Hall; simpl; lia).
  apply written_slots_range in Hin. lia.
Qed.

Lemma populate_first_call_witness :
  exists s,
    program_memory_write power_on = Some s
    /\ program_memory_initialized s = true
    /\ array_get (data s) 7 = Some (instruction NOP 0 0)
    /\ array_get (data s) 30 = Some 0.
Proof.
  destruct (populate_first_call (header := sample_header))
    as (s & Hw & Hflag & _ & _ & _ & Hreserved & _ & Hzero & _).
  { simpl. lia. }
  exists s. split_and!.
  - exact Hw.
  - exact Hflag.
  - apply Hreserved. lia.
  - apply Hzero. simpl. lia.
Defined.

Lemma subroutine_ranges_cover_witness :
  tiles 0 30 subroutine_ranges
  /\ program_memory_subroutine_name 29 <> "Unknown"
  /\ program_memory_subroutine_name 30 = "Unknown".
Proof.
  destruct (subroutine_ranges_cover (header := sample_header))
    as (Htiles & _ & _ & _ & Hknown & Hunknown).
  { reflexivity. }
  split_and!.
  - exact Htiles.
  - apply Hknown. lia.
  - apply Hunknown. lia.
Defined.

Lemma reference_scenario_witness :
  (exists s w,
     program_memory_write power_on = Some s
     /\ program_memory_read s 0 = Some w
     /\ opcode_field w = JMP
     /\ operand1_field w = 8)
  /\ program_memory_subroutine_name 8 = "main"
  /\ program_memory_subroutine_name 13 = "led_blink"
  /\ program_memory_subroutine_name 255 = "Unknown".
Proof.
  destruct (reference_scenario (header := sample_header))
    as ((s & w & Hw & Hread & Hop & Harg & _) & Hmain & Hblink & Hlast & _).
  { simpl. lia. }
  { unfold is_uint8. simpl. lia. }
  split_and!.
  - exists s, w. split_and!; done.
  - exact Hmain.
  - exact Hblink.
  - exact Hlast.
Defined.

Lemma populate_idempotent_witness :
  exists s1,
    program_memory_write power_on = Some s1
    /\ program_memory_write s1 = Some s1.
Proof.
  destruct (populate_idempotent (header := sample_header) power_on)
    as (s1 & Hw1 & Hw2 & _).
  { simpl. lia. }
  exists s1. split; [exact Hw1 | exact Hw2].
Defined.

Lemma read_reference_sizing_witness :
  (255 <? PROGRAM_MEMORY_ADDRESS_WIDTH) = true
  /\ exists w, program_memory_read power_on 255 = Some w.
Proof.
  destruct (read_reference_sizing (header := sample_header) power_on 255)
    as (Htest & _ & w & _ & Hread).
  { reflexivity. }
  { apply power_on_well_sized. }
  { unfold is_uint8. lia. }
  split; [exact Htest|]. exists w. exact Hread.
Defined.

Lemma read_before_populate_witness :
  program_memory_read power_on 77 = Some 0.
Proof.
  destruct (read_before_populate (header := sample_header) 77)
    as (_ & Hread & _).
  { unfold is_uint8. lia. }
  exact Hread.
Defined.

(** The contrast: the body of read mentions [data], and what it returns
    at address 0 changes with populate(). *)
Example read_body_reads_state :
  stmt_reads_data read_body = true
  /\ exec_stmt power_on 0 read_body = Some (Word 0)
  /\ exec_stmt sample_populated 0 read_body = Some (Word 0x160800).
Proof. split_and!; vm_compute; reflexivity. Qed.

Lemma subroutine_name_reads_no_state_witness :
  exec_stmt power_on 13 subroutine_name_body
  = exec_stmt sample_populated 13 subroutine_name_body
  /\ exec_stmt power_on 13 subroutine_name_body = Some (Name "led_blink").
Proof.
  destruct (subroutine_name_reads_no_state (header := sample_header)
              power_on sample_populated 13) as (_ & Hsame & _ & Hname).
  split; [exact Hsame | exact Hname].
Defined.

End Evaluation.

(** A capacity below the range of the address type: here read can be
    asked for an address beyond the capacity. *)
Lemma read_beyond_capacity_witness :
  exists w,
    @program_memory_read small_header (@power_on small_header) 200 = Some w
    /\ w = assemble 0 0 0
    /\ opcode_field w = 0.
Proof.
  destruct (read_beyond_capacity (header := small_header)
              (@power_on small_header) 200)
    as (w & Hread & Hw & Hop & _).
  { reflexivity. }
  { simpl. lia. }
  exists w. split_and!; [exact Hread | exact Hw | exact Hop].
Defined.

(** * Further properties of the encoder *)

Section EncoderCalls.

Lemma word_fields_uint8 w lo : 0 <= lo -> is_uint8 (word_bits w lo 8).
Proof.
  intros Hlo. rewrite word_bits_div_mod by lia.
  unfold is_uint8. apply Z.mod_pos_bound. done.
Qed.

(** X1. Decoding and encoding again gives the word back: a word of 24
    bits is the word assemble builds from its own opcode field and its two
    operand fields. *)
Theorem assemble_fields_round_trip w :
  word24 w ->
  assemble (opcode_field w) (operand1_field w) (operand2_field w) = w.
Proof.
  intros [Hw0 Hw1]. unfold opcode_field, operand1_field, operand2_field.
  rewrite assemble_sum by (apply word_fields_uint8; lia).
  rewrite !word_bits_div_mod by lia.
  change (2 ^ 24) with 16777216 in Hw1.
  change (2 ^ 16) with 65536. change (2 ^ 8) with 256. change (2 ^ 0) with 1.
  Z.div_mod_to_equations. lia.
Qed.

Lemma assemble_fields_round_trip_witness :
  assemble (opcode_field 0x160800) (operand1_field 0x160800)
    (operand2_field 0x160800) = 0x160800.
Proof.
  apply (assemble_fields_round_trip 0x160800). unfold word24. lia.
Defined.

Lemma instruction_24_bits op_code op1 op2 : word24 (instruction op_code op1 op2).
Proof.
  unfold word24, instruction.
  apply assemble_24_bits; apply to_uint8_range.
Qed.

(** X2. A call of assemble with arguments of any width uses their low 8
    bits only: the opcode field and the operand fields of the word are the
    arguments modulo 256, the word has 24 bits, and two calls return the
    same word exactly when their arguments agree modulo 256. *)
Theorem instruction_low_bytes o1 a1 b1 o2 a2 b2 :
  opcode_field (instruction o1 a1 b1) = o1 mod 256
  /\ operand1_field (instruction o1 a1 b1) = a1 mod 256
  /\ operand2_field (instruction o1 a1 b1) = b1 mod 256
  /\ unused_bits (instruction o1 a1 b1) = 0
  /\ (instruction o1 a1 b1 = instruction o2 a2 b2
      <-> o1 mod 256 = o2 mod 256
          /\ a1 mod 256 = a2 mod 256
          /\ b1 mod 256 = b2 mod 256).
Proof.
  assert (Hfields : forall o a b,
            opcode_field (instruction o a b) = o mod 256
            /\ operand1_field (instruction o a b) = a mod 256
            /\ operand2_field (instruction o a b) = b mod 256).
  { intros o a b. unfold instruction. split_and!.
    - apply assemble_opcode; apply to_uint8_range.
    - apply assemble_operand1; apply to_uint8_range.
    - apply assemble_operand2; apply to_uint8_range. }
  destruct (Hfields o1 a1 b1) as (Ho1 & Ha1 & Hb1).
  destruct (Hfields o2 a2 b2) as (Ho2 & Ha2 & Hb2).
  split_and!; try done.
  - unfold instruction. apply assemble_unused_bits; apply to_uint8_range.
  - split.
    + intros Heq. rewrite Heq in Ho1, Ha1, Hb1. split_and!; congruence.
    + intros (Ho & Ha & Hb). unfold instruction, to_uint8.
      change (2 ^ 8) with 256. by rewrite Ho, Ha, Hb.
Qed.

Lemma instruction_low_bytes_witness :
  opcode_field (instruction 0x116 0x208 0x300) = 0x16
  /\ instruction 0x116 0x208 0x300 = instruction 0x16 8 0.
Proof.
  destruct (instruction_low_bytes 0x116 0x208 0x300 0x16 8 0)
    as (Hop & _ & _ & _ & Hsame).
  split; [exact Hop|]. apply Hsame. split_and!; reflexivity.
Defined.

End EncoderCalls.

(** * Further properties of the program memory *)

Section StoreHistory.

Context `{header : cpu_header}.

(** ** The stored words have 24 bits *)

Lemma machine_code_words_24 : Forall (fun p => word24 p.2) machine_code.
Proof.
  unfold machine_code.
  repeat (constructor; [apply instruction_24_bits|]). constructor.
Qed.

Lemma write_words_word24 code : forall d d',
  Forall word24 d ->
  Forall (fun p => word24 p.2) code ->
  write_words d code = Some d' ->
  Forall word24 d'.
Proof.
  induction code as [|[i v] code IH]; intros d d' Hd Hcode Hrun;
    simpl in Hrun.
  - by injection Hrun as <-.
  - destruct (array_set d i v) as [d1|] eqn:Hset; [|done]. simpl in Hrun.
    apply array_set_Some in Hset as [_ ->].
    apply Forall_cons in Hcode as [Hv Hcode]. simpl in Hv.
    apply (IH _ _ (Forall_insert _ _ _ _ Hd Hv) Hcode Hrun).
Qed.

Lemma power_on_word24 : Forall word24 (data power_on).
Proof.
  simpl. apply Forall_replicate. unfold word24. lia.
Qed.

Lemma program_memory_write_word24 s s' :
  Forall word24 (data s) ->
  program_memory_write s = Some s' ->
  Forall word24 (data s').
Proof.
  intros Hs. unfold program_memory_write.
  destruct (program_memory_initialized s).
  - by intros [= <-].
  - destruct (write_words (data s) machine_code) as [d'|] eqn:Hd'; [|done].
    intros [= <-]. simpl.
    apply (write_words_word24 _ _ _ Hs machine_code_words_24 Hd').
Qed.

Lemma run_calls_word24 cs : forall s s',
  Forall word24 (data s) -> run_calls s cs = Some s' ->
  Forall word24 (data s').
Proof.
  induction cs as [|c cs IH]; intros s s' Hs Hrun; simpl in Hrun.
  - by injection Hrun as <-.
  - destruct (run_call s c) as [[s1 r]|] eqn:Hc; [|done]. simpl in Hrun.
    apply (IH s1 s'); [|done].
    destruct c as [|address|address]; simpl in Hc.
    + destruct (program_memory_write s) as [s2|] eqn:Hw; [|done].
      injection Hc as <- _. by apply (program_memory_write_word24 s).
    + destruct (program_memory_read s address); [|done].
      by injection Hc as <- _.
    + by injection Hc as <- _.
Qed.

(** X3. Whatever the header's constants are, after any history of calls
    from the start every word that read returns, for any address, uses the
    low 24 bits only: its bits from 24 on are zero. *)
Theorem read_returns_24_bits cs s address w :
  run_calls power_on cs = Some s ->
  program_memory_read s address = Some w ->
  word24 w /\ unused_bits w = 0.
Proof.
  intros Hrun Hread.
  assert (Hw : word24 w).
  { pose proof (run_calls_word24 cs _ _ power_on_word24 Hrun) as Hall.
    unfold program_memory_read in Hread.
    destruct (address <? PROGRAM_MEMORY_ADDRESS_WIDTH).
    - unfold array_get in Hread. case_bool_decide; [|done].
      apply (Forall_lookup_1 _ _ _ _ Hall Hread).
    - injection Hread as <-. unfold word24. lia. }
  split; [done|]. unfold unused_bits.
  rewrite Z.shiftr_div_pow2 by lia. by apply Z.div_small.
Qed.

(** ** Histories of calls *)

Lemma run_calls_ready cs : forall s,
  well_sized s ->
  program_memory_initialized s = true ->
  Forall uint8_call cs ->
  run_calls s cs = Some s.
Proof.
  induction cs as [|c cs IH]; intros s Hs Hflag Hcs; simpl; [done|].
  apply Forall_cons in Hcs as [Hc Hcs].
  destruct c as [|address|address]; simpl.
  - rewrite program_memory_write_again by done. simpl. by apply IH.
  - destruct Hc as [Ha0 Ha1].
    destruct (program_memory_read_total s address Hs Ha0) as [w ->].
    simpl. by apply IH.
  - by apply IH.
Qed.

Lemma run_calls_not_ready cs : forall s,
  well_sized s ->
  30 <= PROGRAM_MEMORY_ADDRESS_WIDTH ->
  program_memory_initialized s = false ->
  Forall uint8_call cs ->
  run_calls s cs
  = if existsb is_populate cs then program_memory_write s else Some s.
Proof.
  induction cs as [|c cs IH]; intros s Hs Hcap Hflag Hcs; simpl; [done|].
  apply Forall_cons in Hcs as [Hc Hcs].
  destruct c as [|address|address]; simpl.
  - destruct (program_memory_write_first s Hflag) as (d' & _ & Hw).
    { unfold well_sized in Hs. lia. }
    rewrite Hw. simpl. apply run_calls_ready; [|done..].
    by apply (program_memory_write_well_sized s).
  - destruct Hc as [Ha0 Ha1].
    destruct (program_memory_read_total s address Hs Ha0) as [w ->].
    simpl. by apply IH.
  - by apply IH.
Qed.

(** X4. With room for the program, no history of calls faults, and the
    store after a history depends only on whether it contains a call of
    populate(): without one the store is the store of the start, with one
    (or several, anywhere among reads and name lookups) it is the store
    after a single populate(). *)
Theorem run_calls_outcome cs :
  30 <= PROGRAM_MEMORY_ADDRESS_WIDTH ->
  Forall uint8_call cs ->
  is_Some (run_calls power_on cs)
  /\ run_calls power_on cs
     = if existsb is_populate cs
       then program_memory_write power_on
       else Some power_on.
Proof.
  intros Hcap Hcs.
  assert (Heq : run_calls power_on cs
                = if existsb is_populate cs
                  then program_memory_write power_on
                  else Some power_on).
  { apply run_calls_not_ready; [apply power_on_well_sized | done..]. }
  split; [|done]. rewrite Heq.
  destruct (existsb is_populate cs); [|by eexists].
  destruct (program_memory_write_first power_on) as (d' & _ & Hw);
    [done | | by eexists].
  pose proof power_on_well_sized as Hs. unfold well_sized in Hs. lia.
Qed.

(** ** The capacity the program needs *)

Lemma write_words_Some_bounds code : forall d d',
  write_words d code = Some d' ->
  Forall (fun p => 0 <= p.1 < Z.of_nat (length d)) code.
Proof.
  induction code as [|[i v] code IH]; intros d d' Hrun; simpl in Hrun.
  - constructor.
  - destruct (array_set d i v) as [d1|] eqn:Hset; [|done]. simpl in Hrun.
    apply array_set_Some in Hset as [Hi ->].
    constructor; [done|].
    specialize (IH _ _ Hrun). by rewrite length_insert in IH.
Qed.

(** X5. The first call of populate() stays inside the array exactly when
    the capacity is at least 30: with a smaller capacity one of its
    assignments is to an index outside the array. *)
Theorem populate_room :
  is_Some (program_memory_write power_on)
  <-> 30 <= PROGRAM_MEMORY_ADDRESS_WIDTH.
Proof.
  pose proof power_on_well_sized as Hs. unfold well_sized in Hs.
  split.
  - intros [s Hw]. unfold program_memory_write in Hw.
    change (program_memory_initialized power_on) with false in Hw.
    destruct (write_words (data power_on) machine_code) as [d'|] eqn:Hd';
      [|done].
    apply write_words_Some_bounds in Hd'.
    assert (Hlast : (29, instruction RET 0 0) ∈ machine_code).
    { unfold machine_code.
      repeat (first [apply list_elem_of_here | apply list_elem_of_further]). }
    pose proof (proj1 (Forall_forall _ _) Hd' _ Hlast) as Hb.
    rewrite Hs in Hb. simpl in Hb. lia.
  - intros Hcap.
    destruct (program_memory_write_first power_on) as (d' & _ & Hw);
      [done | lia | by eexists].
Qed.

(** ** Names and contents *)

Lemma subroutine_name_unknown_inv address :
  program_memory_subroutine_name address = "Unknown" ->
  end_ <= address \/ address < RESET_vect.
Proof.
  unfold program_memory_subroutine_name. unfold_addresses.
  rewrite !Z.geb_leb. decide_tests; (discriminate || (intros _; lia)).
Qed.

(** X6. The name lookup identifies the range: for every address, each
    name is returned exactly on its range, "RESET_vect" from the reset
    vector up to 7, "main" at 8, "main_loop" on 9..12, "led_blink" on
    13..17, "setup" on 18..20, "init_ports" on 21..23, "init_registers" on
    24..29, and "Unknown" exactly from 30 on and below both the reset
    vector and 8. *)
Theorem subroutine_name_ranges address :
  (program_memory_subroutine_name address = "RESET_vect"
   <-> RESET_vect <= address < 8)
  /\ (program_memory_subroutine_name address = "main" <-> 8 <= address < 9)
  /\ (program_memory_subroutine_name address = "main_loop"
      <-> 9 <= address < 13)
  /\ (program_memory_subroutine_name address = "led_blink"
      <-> 13 <= address < 18)
  /\ (program_memory_subroutine_name address = "setup"
      <-> 18 <= address < 21)
  /\ (program_memory_subroutine_name address = "init_ports"
      <-> 21 <= address < 24)
  /\ (program_memory_subroutine_name address = "init_registers"
      <-> 24 <= address < 30)
  /\ (program_memory_subroutine_name address = "Unknown"
      <-> 30 <= address \/ (address < 8 /\ address < RESET_vect)).
Proof.
  unfold program_memory_subroutine_name. unfold_addresses.
  rewrite !Z.geb_leb.
  decide_tests;
    (split_and!; (split; [intros Hname; (discriminate Hname || lia)
                         | intros Hrange; (reflexivity || lia)])).
Qed.

(** X7. With the reset vector at address 0 or below, an 8-bit address for
    which the lookup knows no name holds no instruction: after populate()
    read returns the zero word there. *)
Theorem unnamed_address_reads_zero s address :
  30 <= PROGRAM_MEMORY_ADDRESS_WIDTH ->
  RESET_vect <= 0 ->
  is_uint8 address ->
  program_memory_write power_on = Some s ->
  program_memory_subroutine_name address = "Unknown" ->
  program_memory_read s address = Some 0.
Proof.
  intros Hcap Hreset [Ha0 Ha1] Hw Hname.
  apply subroutine_name_unknown_inv in Hname. unfold end_ in Hname.
  assert (Ha : 30 <= address) by lia.
  destruct (Z.lt_ge_cases address PROGRAM_MEMORY_ADDRESS_WIDTH) as [Hlt|Hge].
  - unfold program_memory_read.
    destruct (Z.ltb_spec address PROGRAM_MEMORY_ADDRESS_WIDTH); [|lia].
    rewrite (program_memory_write_frame _ _ _ Hw) by lia. simpl.
    apply array_get_replicate. lia.
  - by apply program_memory_read_beyond.
Qed.

End StoreHistory.

(** * The further properties at the sample header *)

Example sample_populated_eq :
  @program_memory_write sample_header (@power_on sample_header)
  = Some sample_populated.
Proof. vm_compute. reflexivity. Qed.

Lemma read_returns_24_bits_witness :
  word24 0x011AE8 /\ unused_bits 0x011AE8 = 0.
Proof.
  apply (read_returns_24_bits (header := sample_header)
           [Read 5; Populate; SubroutineName 9] sample_populated 27).
  - vm_compute. reflexivity.
  - vm_compute. reflexivity.
Defined.

Lemma run_calls_outcome_witness :
  run_calls (H := sample_header) (@power_on sample_header)
    [Read 200; Populate; SubroutineName 13; Populate; Read 0]
  = @program_memory_write sample_header (@power_on sample_header).
Proof.
  destruct (run_calls_outcome (header := sample_header)
              [Read 200; Populate; SubroutineName 13; Populate; Read 0])
    as (_ & Heq).
  { simpl. lia. }
  { repeat constructor; unfold is_uint8; lia. }
  exact Heq.
Defined.

Lemma populate_room_witness :
  @program_memory_write (with_capacity sample_header 16)
    (@power_on (with_capacity sample_header 16)) = None.
Proof.
  destruct (@program_memory_write (with_capacity sample_header 16)
              (@power_on (with_capacity sample_header 16))) as [s|] eqn:Hw;
    [|reflexivity].
  exfalso.
  assert (Hcap : 30 <= 16).
  { apply (proj1 (populate_room (header := with_capacity sample_header 16))).
    rewrite Hw. by eexists. }
  lia.
Defined.

Lemma subroutine_name_ranges_witness :
  @program_memory_subroutine_name sample_header 17 = "led_blink".
Proof.
  destruct (subroutine_name_ranges (header := sample_header) 17)
    as (_ & _ & _ & Hblink & _).
  apply Hblink. lia.
Defined.

Lemma unnamed_address_reads_zero_witness :
  @program_memory_read sample_header sample_populated 200 = Some 0.
Proof.
  apply (unnamed_address_reads_zero (header := sample_header)
           sample_populated 200).
  - simpl. lia.
  - simpl. lia.
  - unfold is_uint8. lia.
  - vm_compute. reflexivity.
  - reflexivity.
Defined.
